(** * n00plicate helper CLI ([cli.py]): model and verified properties

    The program is a small command-line tool with two subcommands:
    [packages] lists the sub-directories of [<root>/packages] and [status]
    runs [git status -sb] in the repository root.

    The embedding follows the source function by function:
    - [list_packages] and [main] are written in a state-and-exception monad
      over a [world] (file system, the two console streams, and the
      operating system's process launcher);
    - [pathlib] paths are lists of parts, compared the way Python compares
      the part lists;
    - [sorted] is a stable insertion sort that only uses [<];
    - [argparse] is a library of the language, modelled for the parser that
      [main] builds (one required sub-command among two, [-h/--help] on
      each parser), after CPython 3.11's [argparse.py].

    Outside the model: symbolic links, permissions and I/O errors, file
    names that cannot be encoded on the console, and changes made to the
    file system by other processes while the tool runs. *)

From Stdlib Require Import List String Ascii ZArith Bool Permutation Sorted Lia.
Import ListNotations.
Open Scope string_scope.
Open Scope list_scope.

(** ** Strings: Python's [str] order and a few helpers *)

(** [s1 < s2] on Python strings is the lexicographic order on code points;
    this is [String.ltb]. *)
Definition str_lt (a b : string) : Prop := String.ltb a b = true.

Fixpoint contains_char (c : ascii) (s : string) : bool :=
  match s with
  | EmptyString => false
  | String d s' => Ascii.eqb c d || contains_char c s'
  end.

(** [s.partition(c)[0]]: the text before the first [c] (all of [s] when
    there is none). *)
Fixpoint before_char (c : ascii) (s : string) : string :=
  match s with
  | EmptyString => EmptyString
  | String d s' => if Ascii.eqb c d then EmptyString else String d (before_char c s')
  end.

Fixpoint all_chars (p : ascii -> bool) (s : string) : bool :=
  match s with
  | EmptyString => true
  | String d s' => p d && all_chars p s'
  end.

Definition is_digit (c : ascii) : bool :=
  (48 <=? nat_of_ascii c)%nat && (nat_of_ascii c <=? 57)%nat.

(** One or more digits: the regular expression [\d+] matched against all
    of [s]. *)
Definition digits1 (s : string) : bool :=
  match s with
  | EmptyString => false
  | _ => all_chars is_digit s
  end.

Fixpoint drop_digits (s : string) : string :=
  match s with
  | String d s' => if is_digit d then drop_digits s' else s
  | EmptyString => EmptyString
  end.

(** [$] also matches just before a final newline. *)
Fixpoint strip_final_newline (s : string) : string :=
  match s with
  | EmptyString => EmptyString
  | String d EmptyString => if Ascii.eqb d "010"%char then EmptyString else s
  | String d s' => String d (strip_final_newline s')
  end.

Definition newline : string := String "010" EmptyString.

(** ** Paths ([pathlib.PurePath]) *)

(** A path is the list of its parts. *)
Definition Path := list string.

(** [p / name] *)
Definition joinpath (p : Path) (name : string) : Path := p ++ [name].

(** [p.name]: the last part. *)
Definition name (p : Path) : string := last p "".

(** [p < q] compares the part lists as Python compares lists: the first
    position where the parts differ decides, a proper prefix is smaller. *)
Fixpoint path_ltb (p q : Path) : bool :=
  match p, q with
  | [], [] => false
  | [], _ :: _ => true
  | _ :: _, [] => false
  | x :: p', y :: q' => if String.eqb x y then path_ltb p' q' else String.ltb x y
  end.

(** ** [sorted] *)

Section Sorting.
Context {A : Type}.
Variable lt : A -> A -> bool.

(** Insertion after the elements that are smaller, before the first
    element that is not: equal elements keep their order. *)
Fixpoint insert_sorted (x : A) (l : list A) : list A :=
  match l with
  | [] => [x]
  | y :: l' => if lt y x then y :: insert_sorted x l' else x :: y :: l'
  end.

(** [sorted(l)]: a stable sort using only [<]. *)
Definition sorted (l : list A) : list A := fold_right insert_sorted [] l.

(** [leq a b]: [b] is not smaller than [a]. *)
Definition leq (a b : A) : Prop := lt b a = false.
End Sorting.

(** ** The file system *)

#[local] Set Warnings "-register-all".
Inductive node : Type :=
| File
| Dir (entries : list (string * node)).

Definition node_is_dir (n : node) : bool :=
  match n with
  | Dir _ => true
  | File => false
  end.

Fixpoint find_entry (n : string) (es : list (string * node)) : option node :=
  match es with
  | [] => None
  | (m, nd) :: es' => if String.eqb n m then Some nd else find_entry n es'
  end.

(** Resolution of a path from the root of the file system. *)
Fixpoint lookup (fs : node) (p : Path) : option node :=
  match p with
  | [] => Some fs
  | c :: p' =>
      match fs with
      | Dir es =>
          match find_entry c es with
          | Some child => lookup child p'
          | None => None
          end
      | File => None
      end
  end.

(** ** The world a run acts on *)

(** The exceptions the program can meet. *)
Inductive exn : Type :=
| SystemExit (code : Z)
| NotADirectoryError
| FileNotFoundError
| CalledProcessError (returncode : Z).

Inductive parser_id : Type :=
| TopParser
| SubParser (command : string).

(** The diagnostics of [ArgumentParser.error]. *)
Inductive usage_error : Type :=
| MissingCommand                              (* the following arguments are required: command *)
| InvalidChoice (token : string)              (* argument command: invalid choice *)
| IgnoredExplicitArgument (token : string)    (* ignored explicit argument, in token *)
| UnrecognizedArguments (extras : list string).

(** What is written to a console stream, in order. The text that [argparse]
    formats (it depends on the program name and the terminal width) is kept
    symbolic. *)
Inductive output : Type :=
| Text (s : string)
| HelpMessage (p : parser_id)
| UsageAndError (p : parser_id) (e : usage_error)
| Traceback (e : exn).

(** What launching an external program does: it cannot be started, or it
    runs to completion, writing [out] and [err] to the streams it inherits
    and leaving the file system as [fs']. *)
Inductive proc_outcome : Type :=
| CannotLaunch
| Exited (returncode : Z) (out err : string) (fs' : node).

Record world : Type := mkWorld {
  fs : node;
  stdout : list output;
  stderr : list output;
  (** the operating system: command line, working directory, file system *)
  os_spawn : list string -> Path -> node -> proc_outcome
}.

Definition write_stdout (o : output) (w : world) : world :=
  mkWorld (fs w) (stdout w ++ [o]) (stderr w) (os_spawn w).

Definition write_stderr (o : output) (w : world) : world :=
  mkWorld (fs w) (stdout w) (stderr w ++ [o]) (os_spawn w).

(** ** A state-and-exception monad *)

Inductive result (A : Type) : Type :=
| Ret (a : A)
| Raise (e : exn).
Arguments Ret {A} a.
Arguments Raise {A} e.

Definition M (A : Type) : Type := world -> result A * world.

Definition ret {A} (a : A) : M A := fun w => (Ret a, w).

Definition raise {A} (e : exn) : M A := fun w => (Raise e, w).

Definition bind {A B} (m : M A) (k : A -> M B) : M B :=
  fun w =>
    match m w with
    | (Ret a, w') => k a w'
    | (Raise e, w') => (Raise e, w')
    end.

Notation "x <- m ;; k" := (bind m (fun x => k))
  (at level 61, m at next level, right associativity).
Notation "m ;;; k" := (bind m (fun _ => k))
  (at level 61, right associativity).

(** [for x in l: body(x)] *)
Fixpoint for_each {A} (l : list A) (body : A -> M unit) : M unit :=
  match l with
  | [] => ret tt
  | x :: l' => body x ;;; for_each l' body
  end.

(** ** Library operations used by the program *)

(** [print(s)] *)
Definition print (s : string) : M unit :=
  fun w => (Ret tt, write_stdout (Text (s ++ newline)%string) w).

(** [p.exists()] *)
Definition exists_ (p : Path) : M bool :=
  fun w => (Ret (match lookup (fs w) p with Some _ => true | None => false end), w).

(** [p.is_dir()] *)
Definition is_dir (p : Path) : M bool :=
  fun w => (Ret (match lookup (fs w) p with Some nd => node_is_dir nd | None => false end), w).

(** [p.iterdir()], consumed at once: the children in the order the
    directory enumerates them. *)
Definition iterdir (p : Path) : M (list Path) :=
  fun w =>
    match lookup (fs w) p with
    | Some (Dir es) => (Ret (map (fun e => joinpath p (fst e)) es), w)
    | Some File => (Raise NotADirectoryError, w)
    | None => (Raise FileNotFoundError, w)
    end.

(** [subprocess.run(args, check=check, cwd=cwd)]: the child inherits both
    streams; the returned [CompletedProcess] is reduced to its return code. *)
Definition subprocess_run (args : list string) (check : bool) (cwd : Path) : M Z :=
  fun w =>
    match os_spawn w args cwd (fs w) with
    | CannotLaunch => (Raise FileNotFoundError, w)
    | Exited rc out err fs' =>
        let w' := mkWorld fs' (stdout w ++ [Text out]) (stderr w ++ [Text err]) (os_spawn w) in
        if check && negb (rc =? 0)%Z
        then (Raise (CalledProcessError rc), w')
        else (Ret rc, w')
    end.

(** ** [argparse], for the parser built by [main]

    The top-level parser has the option strings [-h] and [--help] and one
    required positional, the sub-command, whose choices are the names of
    the two sub-parsers; each sub-parser has [-h] and [--help] only. *)

Definition option_strings : list string := ["-h"; "--help"].

Definition choices : list string := ["packages"; "status"].

Definition mem (s : string) (l : list string) : bool := existsb (String.eqb s) l.

(** The regular expression [^-\d+$|^-\d*\.\d+$] of [_negative_number_matcher]. *)
Definition negative_number_like (a : string) : bool :=
  match strip_final_newline a with
  | String "-" r =>
      digits1 r ||
      match drop_digits r with
      | String "." r' => digits1 r'
      | _ => false
      end
  | _ => false
  end.

Inductive arg_class : Type :=
| Positional
| HelpFlag                 (* -h, --help, an abbreviation of --help, -hh... *)
| HelpFlagWithArgument     (* a help flag given an explicit argument *)
| UnknownOption.

(** The end of [_parse_optional]: nothing matched. *)
Definition classify_unmatched (a : string) : arg_class :=
  if negative_number_like a then Positional
  else if contains_char " " a then Positional
  else UnknownOption.

(** [_parse_optional] together with what [consume_optional] makes of a
    match, for an argument other than [--] that comes before any [--]. *)
Definition classify (a : string) : arg_class :=
  match a with
  | EmptyString => Positional
  | String c r =>
      if negb (Ascii.eqb c "-") then Positional
      else if mem a option_strings then HelpFlag
      else
        match r with
        | EmptyString => Positional
        | String c2 r2 =>
            let opt := before_char "=" a in
            if contains_char "=" a && mem opt option_strings then HelpFlagWithArgument
            else if Ascii.eqb c2 "-" then
              if String.prefix opt "--help" then
                if contains_char "=" a then HelpFlagWithArgument else HelpFlag
              else classify_unmatched a
            else if Ascii.eqb c2 "h" then
              if all_chars (Ascii.eqb "h") r2 then HelpFlag else HelpFlagWithArgument
            else classify_unmatched a
        end
  end.

Inductive sub_outcome : Type :=
| SubHelp
| SubError (e : usage_error)
| SubExtras (extras : list string).

(** A sub-parser's [parse_known_args]: it has no positional, so whatever
    is not a help flag is left over. *)
Fixpoint parse_sub (args : list string) : sub_outcome :=
  match args with
  | [] => SubExtras []
  | a :: rest =>
      if String.eqb a "--" then SubExtras args
      else
        match classify a with
        | HelpFlag => SubHelp
        | HelpFlagWithArgument => SubError (IgnoredExplicitArgument a)
        | Positional | UnknownOption =>
            match parse_sub rest with
            | SubExtras ex => SubExtras (a :: ex)
            | o => o
            end
        end
  end.

Inductive parse_outcome : Type :=
| Parsed (cmd : string)
| ShowHelp (p : parser_id)
| Rejected (p : parser_id) (e : usage_error).

(** The top-level parser, scanning from the left; [extras] are the unknown
    options met so far. The first positional is the sub-command and takes
    the rest of the command line with it. *)
Fixpoint parse_top (args : list string) (extras : list string) : parse_outcome :=
  match args with
  | [] => Rejected TopParser MissingCommand
  | a :: rest =>
      if String.eqb a "--" then
        match rest with
        | [] => Rejected TopParser MissingCommand
        | _ :: _ => Rejected TopParser (InvalidChoice "--")
        end
      else
        match classify a with
        | HelpFlag => ShowHelp TopParser
        | HelpFlagWithArgument => Rejected TopParser (IgnoredExplicitArgument a)
        | UnknownOption => parse_top rest (extras ++ [a])
        | Positional =>
            if mem a choices then
              match parse_sub rest with
              | SubHelp => ShowHelp (SubParser a)
              | SubError e => Rejected (SubParser a) e
              | SubExtras ex =>
                  match extras ++ ex with
                  | [] => Parsed a
                  | _ :: _ => Rejected TopParser (UnrecognizedArguments (extras ++ ex))
                  end
              end
            else Rejected TopParser (InvalidChoice a)
        end
  end.

Record Namespace : Type := mkNamespace { command : string }.

(** [parser.parse_args()]: help goes to standard output and exits with 0,
    an error writes the usage and the message to standard error and exits
    with 2. *)
Definition parse_args (argv : list string) : M Namespace :=
  fun w =>
    match parse_top argv [] with
    | Parsed c => (Ret (mkNamespace c), w)
    | ShowHelp p => (Raise (SystemExit 0), write_stdout (HelpMessage p) w)
    | Rejected p e => (Raise (SystemExit 2), write_stderr (UsageAndError p e) w)
    end.

(** [parser.print_help()] *)
Definition print_help : M unit :=
  fun w => (Ret tt, write_stdout (HelpMessage TopParser) w).

(** ** The program *)

Definition list_packages (REPO_ROOT : Path) : M unit :=
  let pkgs_dir := joinpath REPO_ROOT "packages" in
  e <- exists_ pkgs_dir ;;
  if negb e then print "No packages directory found."
  else
    children <- iterdir pkgs_dir ;;
    for_each (sorted path_ltb children) (fun pkg =>
      d <- is_dir pkg ;;
      if d then print ("- " ++ name pkg)%string else ret tt).

Definition main (REPO_ROOT : Path) (argv : list string) : M Z :=
  args <- parse_args argv ;;
  if command args =? "packages" then
    list_packages REPO_ROOT ;;; ret 0%Z
  else if command args =? "status" then
    subprocess_run ["git"; "status"; "-sb"] true REPO_ROOT ;;; ret 0%Z
  else
    print_help ;;; ret 1%Z.

(** The guard of the last branch of [main]. *)
Definition takes_fallback (args : Namespace) : bool :=
  negb (command args =? "packages") && negb (command args =? "status").

(** [raise SystemExit(main())] *)
Definition script (REPO_ROOT : Path) (argv : list string) : M unit :=
  n <- main REPO_ROOT argv ;; raise (SystemExit n).

(** The interpreter around the script: [SystemExit] sets the exit status,
    any other exception is reported on standard error with status 1. *)
Definition run (REPO_ROOT : Path) (argv : list string) (w : world) : Z * world :=
  match script REPO_ROOT argv w with
  | (Ret _, w') => (0%Z, w')
  | (Raise (SystemExit c), w') => (c, w')
  | (Raise e, w') => (1%Z, write_stderr (Traceback e) w')
  end.

Definition exit_status (r : Z * world) : Z := fst r.
Definition final (r : Z * world) : world := snd r.

(** ** Vocabulary for the statements *)

(** The line printed for a package. *)
Definition line (n : string) : output := Text (("- " ++ n) ++ newline)%string.

Definition entry_is_dir (e : string * node) : bool := node_is_dir (snd e).

(** The names of the entries that are directories, in enumeration order. *)
Definition directory_names (es : list (string * node)) : list string :=
  map fst (filter entry_is_dir es).

(** Whether the entry called [n] is a directory. *)
Definition listed (es : list (string * node)) (n : string) : bool :=
  match find_entry n es with
  | Some nd => node_is_dir nd
  | None => false
  end.

(** What a directory listing shows of an entry: its name and whether it
    is a directory. *)
Definition entry_kind (e : string * node) : string * bool :=
  (fst e, node_is_dir (snd e)).

(** The command line selects the sub-command [cmd]. *)
Definition selects (argv : list string) (cmd : string) : Prop :=
  parse_top argv [] = Parsed cmd.

Definition packages_dir (REPO_ROOT : Path) : Path := joinpath REPO_ROOT "packages".

Definition git_status : list string := ["git"; "status"; "-sb"].

(** Two file-system states that show the same packages directory: absent
    in both, a non-directory in both, or a directory with the same entries
    (distinct names, each with its kind), enumerated in any order. *)
Definition same_packages_state (REPO_ROOT : Path) (f1 f2 : node) : Prop :=
  match lookup f1 (packages_dir REPO_ROOT), lookup f2 (packages_dir REPO_ROOT) with
  | None, None => True
  | Some File, Some File => True
  | Some (Dir es1), Some (Dir es2) =>
      NoDup (map fst es1) /\ Permutation (map entry_kind es1) (map entry_kind es2)
  | _, _ => False
  end.

(** A first argument that is read as a sub-command and is not one. *)
Definition unrecognized_subcommand (tok : string) : bool :=
  negb (tok =? "--") &&
  match classify tok with Positional => true | _ => false end &&
  negb (mem tok choices).

(** An argument that asks for help: [-h], [--help], an abbreviation of
    [--help], or [-h] repeated in one token. *)
Definition help_flag (tok : string) : bool :=
  negb (tok =? "--") &&
  match classify tok with HelpFlag => true | _ => false end.

(** The world [w] with another process launcher. *)
Definition with_spawn (spawn : list string -> Path -> node -> proc_outcome)
           (w : world) : world :=
  mkWorld (fs w) (stdout w) (stderr w) spawn.

(** ** Example worlds *)

Definition no_git : list string -> Path -> node -> proc_outcome :=
  fun _ _ _ => CannotLaunch.

Definition world_of (f : node) : world := mkWorld f [] [] no_git.

Definition git_clean : list string -> Path -> node -> proc_outcome :=
  fun _ _ f => Exited 0 "## main" "" f.

Definition git_fails : list string -> Path -> node -> proc_outcome :=
  fun _ _ f => Exited 128 "" "fatal: not a git repository" f.

Definition repo : Path := ["repo"].

(** [/repo/packages] holds [b/], [a/] and the file [notadir], enumerated
    in that order. *)
Definition packages_example : list (string * node) :=
  [("b", Dir [("src", Dir [])]); ("a", Dir []); ("notadir", File)].

Definition fs_example : node :=
  Dir [("repo", Dir [("cli.py", File); ("packages", Dir packages_example)])].

(** The same directory, enumerated in another order. *)
Definition fs_example' : node :=
  Dir [("repo", Dir [("cli.py", File);
                     ("packages", Dir [("notadir", File);
                                       ("a", Dir []);
                                       ("b", Dir [("src", Dir [])])])])].

Definition fs_no_packages : node := Dir [("repo", Dir [("cli.py", File)])].

Definition fs_empty_packages : node :=
  Dir [("repo", Dir [("cli.py", File); ("packages", Dir [])])].

Definition fs_packages_file : node :=
  Dir [("repo", Dir [("cli.py", File); ("packages", File)])].


(** * Properties *)

(** ** The order on strings *)

Lemma ascii_compare_refl (a : ascii) : Ascii.compare a a = Eq.
Proof. unfold Ascii.compare. apply N.compare_refl. Qed.

Lemma ascii_compare_lt_trans (a b c : ascii) :
  Ascii.compare a b = Lt -> Ascii.compare b c = Lt -> Ascii.compare a c = Lt.
Proof.
  unfold Ascii.compare. rewrite !N.compare_lt_iff. apply N.lt_trans.
Qed.

Lemma string_compare_refl (s : string) : String.compare s s = Eq.
Proof.
  induction s as [|c s IH]; simpl; [reflexivity|].
  now rewrite ascii_compare_refl.
Qed.

Lemma string_compare_lt_trans (a b c : string) :
  String.compare a b = Lt -> String.compare b c = Lt -> String.compare a c = Lt.
Proof.
  revert b c.
  induction a as [|x a IH]; intros [|y b] [|z c]; simpl; try congruence.
  destruct (Ascii.compare x y) eqn:Exy, (Ascii.compare y z) eqn:Eyz;
    try discriminate; intros Hab Hbc.
  - apply Ascii.compare_eq_iff in Exy, Eyz. subst.
    rewrite ascii_compare_refl. eauto.
  - apply Ascii.compare_eq_iff in Exy. subst. now rewrite Eyz.
  - apply Ascii.compare_eq_iff in Eyz. subst. now rewrite Exy.
  - now rewrite (ascii_compare_lt_trans x y z).
Qed.

Lemma ltb_irrefl (a : string) : String.ltb a a = false.
Proof. unfold String.ltb. now rewrite string_compare_refl. Qed.

Lemma ltb_trans (a b c : string) :
  String.ltb a b = true -> String.ltb b c = true -> String.ltb a c = true.
Proof.
  unfold String.ltb. intros Hab Hbc.
  destruct (String.compare a b) eqn:Eab; try discriminate.
  destruct (String.compare b c) eqn:Ebc; try discriminate.
  now rewrite (string_compare_lt_trans a b c).
Qed.

Lemma ltb_trichotomy (a b : string) :
  String.ltb a b = false -> String.ltb b a = false -> a = b.
Proof.
  unfold String.ltb. rewrite (String.compare_antisym b a).
  destruct (String.compare a b) eqn:E; simpl; try discriminate.
  intros _ _. now apply String.compare_eq_iff.
Qed.

(** ** [sorted] returns the ascending arrangement of its argument *)

Section SortingFacts.
Context {A : Type}.
Variable lt : A -> A -> bool.
Hypothesis lt_irrefl : forall a, lt a a = false.
Hypothesis lt_trans : forall a b c, lt a b = true -> lt b c = true -> lt a c = true.
Hypothesis lt_trichotomy : forall a b, lt a b = false -> lt b a = false -> a = b.

Local Abbreviation le := (leq lt).

Lemma le_trans a b c : le a b -> le b c -> le a c.
Proof.
  unfold leq. intros Hab Hbc.
  destruct (lt c a) eqn:Hca; [|reflexivity].
  destruct (lt a b) eqn:Hlab.
  - rewrite (lt_trans c a b Hca Hlab) in Hbc. discriminate.
  - assert (a = b) by now apply lt_trichotomy. subst. congruence.
Qed.

Lemma le_antisym a b : le a b -> le b a -> a = b.
Proof. unfold leq. intros. now apply lt_trichotomy. Qed.

Lemma insert_sorted_perm x l : Permutation (insert_sorted lt x l) (x :: l).
Proof.
  induction l as [|y l IH]; simpl; [reflexivity|].
  destruct (lt y x); [|reflexivity].
  rewrite IH. apply perm_swap.
Qed.

Lemma sorted_perm l : Permutation (sorted lt l) l.
Proof.
  induction l as [|x l IH]; simpl; [reflexivity|].
  fold (sorted lt l). rewrite insert_sorted_perm. now constructor.
Qed.

Lemma insert_sorted_ascending x l :
  StronglySorted le l -> StronglySorted le (insert_sorted lt x l).
Proof.
  induction 1 as [|y l Hl IH Hy]; simpl.
  - repeat constructor.
  - destruct (lt y x) eqn:Hyx.
    + constructor; [exact IH|].
      rewrite (insert_sorted_perm x l). constructor; [|exact Hy].
      unfold leq. destruct (lt x y) eqn:Hxy; [|reflexivity].
      pose proof (lt_trans y x y Hyx Hxy) as Hyy.
      rewrite lt_irrefl in Hyy. discriminate.
    + constructor; [now constructor|].
      constructor; [exact Hyx|].
      eapply Forall_impl; [|exact Hy].
      intros z Hz. now apply (le_trans x y z).
Qed.

Lemma sorted_ascending l : StronglySorted le (sorted lt l).
Proof.
  induction l as [|x l IH]; simpl; [constructor|].
  now apply insert_sorted_ascending.
Qed.

(** An ascending arrangement is unique. *)
Lemma ascending_unique l1 l2 :
  StronglySorted le l1 -> StronglySorted le l2 -> Permutation l1 l2 -> l1 = l2.
Proof.
  intros H1. revert l2.
  induction H1 as [|x l1 Hl1 IH Hx]; intros l2 H2 HP.
  - now apply Permutation_nil in HP.
  - destruct H2 as [|y l2 Hl2 Hy].
    + apply Permutation_sym, Permutation_nil in HP. discriminate.
    + assert (x = y) as ->.
      { apply le_antisym.
        - assert (In y (x :: l1)) as [->|Hin]
              by (eapply Permutation_in; [symmetry; exact HP|now left]).
          + apply lt_irrefl.
          + rewrite Forall_forall in Hx. now apply Hx.
        - assert (In x (y :: l2)) as [->|Hin]
              by (eapply Permutation_in; [exact HP|now left]).
          + apply lt_irrefl.
          + rewrite Forall_forall in Hy. now apply Hy. }
      f_equal. apply IH; [exact Hl2|].
      now apply Permutation_cons_inv in HP.
Qed.

Lemma sorted_permutation_eq l1 l2 :
  Permutation l1 l2 -> sorted lt l1 = sorted lt l2.
Proof.
  intros HP. apply ascending_unique; try apply sorted_ascending.
  now rewrite !sorted_perm.
Qed.

Lemma filter_ascending (f : A -> bool) l :
  StronglySorted le l -> StronglySorted le (filter f l).
Proof.
  induction 1 as [|x l Hl IH Hx]; simpl; [constructor|].
  destruct (f x); [|exact IH].
  constructor; [exact IH|].
  rewrite Forall_forall in *. intros z Hz.
  apply filter_In in Hz. now apply Hx.
Qed.

Lemma filter_perm (f : A -> bool) l1 l2 :
  Permutation l1 l2 -> Permutation (filter f l1) (filter f l2).
Proof.
  induction 1 as [|x l1 l2 _ IH|x y l|l1 l2 l3 _ IH1 _ IH2]; simpl.
  - constructor.
  - destruct (f x); [now constructor|exact IH].
  - destruct (f x), (f y); try reflexivity. apply perm_swap.
  - now transitivity (filter f l2).
Qed.

(** Filtering the sorted list is sorting the filtered list. *)
Lemma filter_sorted (f : A -> bool) l :
  filter f (sorted lt l) = sorted lt (filter f l).
Proof.
  apply ascending_unique.
  - apply filter_ascending, sorted_ascending.
  - apply sorted_ascending.
  - transitivity (filter f l).
    + apply filter_perm, sorted_perm.
    + symmetry. apply sorted_perm.
Qed.

(** No element is repeated: the arrangement is strictly ascending. *)
Lemma ascending_strict l :
  NoDup l -> StronglySorted le l ->
  StronglySorted (fun a b => lt a b = true) l.
Proof.
  intros Hnd Hs. induction Hs as [|x l Hl IH Hx]; [constructor|].
  inversion Hnd as [|? ? Hnotin Hnd']; subst.
  constructor; [now apply IH|].
  rewrite Forall_forall in *. intros z Hz.
  destruct (lt x z) eqn:Hxz; [reflexivity|].
  exfalso. apply Hnotin.
  assert (x = z) as -> by (apply lt_trichotomy; [exact Hxz|now apply Hx]).
  exact Hz.
Qed.
End SortingFacts.

(** Sorting commutes with a map that preserves the comparison. *)
Lemma sorted_map {A B} (ltA : A -> A -> bool) (ltB : B -> B -> bool) (f : A -> B) :
  (forall a b, ltB (f a) (f b) = ltA a b) ->
  forall l, sorted ltB (map f l) = map f (sorted ltA l).
Proof.
  intros Hf l. induction l as [|x l IH]; simpl; [reflexivity|].
  fold (sorted ltB (map f l)). fold (sorted ltA l). rewrite IH.
  generalize (sorted ltA l) as s. intros s.
  induction s as [|y s IHs]; simpl; [reflexivity|].
  rewrite Hf. destruct (ltA y x); simpl; [now rewrite IHs|reflexivity].
Qed.

(** ** Paths and the file system *)

Lemma path_ltb_joinpath (p : Path) (a b : string) :
  path_ltb (joinpath p a) (joinpath p b) = String.ltb a b.
Proof.
  unfold joinpath. induction p as [|x p IH]; simpl.
  - destruct (String.eqb_spec a b) as [->|_]; [|reflexivity].
    now rewrite ltb_irrefl.
  - now rewrite String.eqb_refl.
Qed.

Lemma name_joinpath (p : Path) (n : string) : name (joinpath p n) = n.
Proof. apply last_last. Qed.

Lemma lookup_app (f : node) (p q : Path) :
  lookup f (p ++ q) =
  match lookup f p with
  | Some nd => lookup nd q
  | None => None
  end.
Proof.
  revert f. induction p as [|c p IH]; intros f; simpl; [reflexivity|].
  destruct f as [|es]; [reflexivity|].
  destruct (find_entry c es); [apply IH|reflexivity].
Qed.

Lemma lookup_child (f : node) (p : Path) (es : list (string * node)) (n : string) :
  lookup f p = Some (Dir es) -> lookup f (joinpath p n) = find_entry n es.
Proof.
  intros H. unfold joinpath. rewrite lookup_app, H. simpl.
  now destruct (find_entry n es).
Qed.

Lemma find_entry_In (es : list (string * node)) (e : string * node) :
  NoDup (map fst es) -> In e es -> find_entry (fst e) es = Some (snd e).
Proof.
  induction es as [|[m nd] es IH]; simpl; [tauto|].
  intros Hnd [<-|Hin]; simpl.
  - now rewrite String.eqb_refl.
  - inversion Hnd as [|? ? Hnotin Hnd']; subst.
    destruct (String.eqb_spec (fst e) m) as [<-|_]; [|now apply IH].
    exfalso. apply Hnotin. now apply in_map.
Qed.

Lemma listed_entry (es : list (string * node)) (e : string * node) :
  NoDup (map fst es) -> In e es -> listed es (fst e) = entry_is_dir e.
Proof.
  intros Hnd Hin. unfold listed. now rewrite (find_entry_In es e Hnd Hin).
Qed.

Lemma filter_map_fst {B} (g : string -> bool) (h : string * B -> bool)
      (es : list (string * B)) :
  (forall e, In e es -> g (fst e) = h e) ->
  filter g (map fst es) = map fst (filter h es).
Proof.
  induction es as [|e es IH]; simpl; intros H; [reflexivity|].
  rewrite (H e) by now left.
  destruct (h e); simpl; rewrite IH; auto.
Qed.

Lemma listed_names (es : list (string * node)) :
  NoDup (map fst es) -> filter (listed es) (map fst es) = directory_names es.
Proof.
  intros Hnd. apply filter_map_fst. intros e He. now apply listed_entry.
Qed.

(** ** The package lister *)

Lemma world_eta (w : world) :
  mkWorld (fs w) (stdout w) (stderr w) (os_spawn w) = w.
Proof. now destruct w. Qed.

(** The loop of [list_packages] over the children called [ns]. *)
Lemma listing_loop (pk : Path) (es : list (string * node)) (ns : list string) :
  forall w,
    lookup (fs w) pk = Some (Dir es) ->
    for_each (map (joinpath pk) ns)
             (fun pkg =>
                d <- is_dir pkg ;;
                if d then print ("- " ++ name pkg)%string else ret tt) w
    = (Ret tt,
       mkWorld (fs w) (stdout w ++ map line (filter (listed es) ns))
               (stderr w) (os_spawn w)).
Proof.
  induction ns as [|n ns IH]; intros w Hpk; simpl.
  - unfold ret. now rewrite app_nil_r, world_eta.
  - unfold bind at 1. unfold bind at 1. unfold is_dir.
    rewrite (lookup_child _ _ es n Hpk), name_joinpath.
    fold (listed es n).
    destruct (listed es n); simpl.
    + rewrite IH by exact Hpk. simpl.
      now rewrite <- app_assoc.
    + now rewrite IH by exact Hpk.
Qed.

Lemma list_packages_missing (root : Path) (w : world) :
  lookup (fs w) (packages_dir root) = None ->
  list_packages root w
  = (Ret tt,
     write_stdout (Text ("No packages directory found." ++ newline)%string) w).
Proof.
  intros H. unfold list_packages, bind, exists_. fold (packages_dir root).
  now rewrite H.
Qed.

Lemma list_packages_file (root : Path) (w : world) :
  lookup (fs w) (packages_dir root) = Some File ->
  list_packages root w = (Raise NotADirectoryError, w).
Proof.
  intros H. unfold list_packages, bind, exists_, iterdir.
  fold (packages_dir root). rewrite H. simpl. now rewrite H.
Qed.

Lemma list_packages_dir (root : Path) (w : world) (es : list (string * node)) :
  lookup (fs w) (packages_dir root) = Some (Dir es) ->
  list_packages root w
  = (Ret tt,
     mkWorld (fs w)
             (stdout w ++
              map line (filter (listed es) (sorted String.ltb (map fst es))))
             (stderr w) (os_spawn w)).
Proof.
  intros H. unfold list_packages. fold (packages_dir root).
  unfold bind at 1. unfold exists_. rewrite H. simpl.
  unfold bind at 1. unfold iterdir. rewrite H.
  rewrite <- (map_map fst (joinpath (packages_dir root))).
  rewrite (sorted_map String.ltb path_ltb (joinpath (packages_dir root)))
    by apply path_ltb_joinpath.
  now apply listing_loop.
Qed.

(** ** The argument parser *)

Lemma parse_sub_extras (args ex : list string) :
  parse_sub args = SubExtras ex -> ex = args.
Proof.
  revert ex. induction args as [|a rest IH]; simpl; intros ex H.
  - congruence.
  - destruct (a =? "--"); [congruence|].
    destruct (classify a); try discriminate;
      destruct (parse_sub rest) as [| |ex']; try discriminate;
      inversion H; subst; f_equal; now apply IH.
Qed.

Lemma mem_choices (c : string) :
  mem c choices = true -> c = "packages" \/ c = "status".
Proof.
  unfold mem, choices. simpl. rewrite !orb_true_iff, !String.eqb_eq.
  intros [H|[H|H]]; [now left|now right|discriminate].
Qed.

Lemma parse_top_Parsed (args extras : list string) (c : string) :
  parse_top args extras = Parsed c ->
  extras = [] /\ args = [c] /\ (c = "packages" \/ c = "status").
Proof.
  revert extras. induction args as [|a rest IH]; cbn [parse_top]; intros extras H.
  - discriminate.
  - destruct (a =? "--"); [destruct rest; discriminate|].
    destruct (classify a); try discriminate.
    + destruct (mem a choices) eqn:Hmem; [|discriminate].
      destruct (parse_sub rest) as [| |ex] eqn:Hsub; try discriminate.
      apply parse_sub_extras in Hsub. subst ex.
      destruct (extras ++ rest) eqn:Happ; [|discriminate].
      inversion H; subst.
      apply app_eq_nil in Happ as [-> ->].
      auto using mem_choices.
    + apply IH in H as [Hnil _]. now destruct extras.
Qed.

(** A command line is accepted exactly when it is one of the two
    sub-command names and nothing else. *)
Lemma selects_inv (argv : list string) (c : string) :
  selects argv c -> argv = [c] /\ (c = "packages" \/ c = "status").
Proof. intros H. now apply parse_top_Parsed in H as (_ & ? & ?). Qed.

(** ** The two sub-commands as whole runs *)

Lemma run_packages (root : Path) (w : world) :
  run root ["packages"] w =
  match list_packages root w with
  | (Ret _, w') => (0%Z, w')
  | (Raise (SystemExit c), w') => (c, w')
  | (Raise e, w') => (1%Z, write_stderr (Traceback e) w')
  end.
Proof.
  unfold run, script, main, bind, parse_args, raise, ret. simpl.
  now destruct (list_packages root w) as [[[]|e] w'].
Qed.

Lemma run_status (root : Path) (w : world) :
  run root ["status"] w =
  match subprocess_run git_status true root w with
  | (Ret _, w') => (0%Z, w')
  | (Raise (SystemExit c), w') => (c, w')
  | (Raise e, w') => (1%Z, write_stderr (Traceback e) w')
  end.
Proof.
  unfold run, script, main, bind, parse_args, raise, ret. simpl.
  fold git_status.
  now destruct (subprocess_run git_status true root w) as [[?|e] w'].
Qed.

(** ** The names that are listed *)

Lemma NoDup_directory_names (es : list (string * node)) :
  NoDup (map fst es) -> NoDup (directory_names es).
Proof.
  unfold directory_names.
  induction es as [|e es IH]; simpl; intros Hnd; [constructor|].
  inversion Hnd as [|? ? Hnotin Hnd']; subst.
  destruct (entry_is_dir e); simpl; [|now apply IH].
  constructor; [|now apply IH].
  intros Hin. apply Hnotin.
  apply in_map_iff in Hin as (e' & <- & He').
  apply filter_In in He' as [He' _]. now apply in_map.
Qed.

Lemma In_directory_names (es : list (string * node)) (n : string) :
  In n (directory_names es) <-> exists sub, In (n, Dir sub) es.
Proof.
  unfold directory_names. rewrite in_map_iff. split.
  - intros ([m nd] & <- & He). apply filter_In in He as [He Hd].
    destruct nd as [|sub]; [discriminate|]. now exists sub.
  - intros [sub Hin]. exists (n, Dir sub). split; [reflexivity|].
    apply filter_In. now split.
Qed.

Lemma directory_names_kind (es : list (string * node)) :
  directory_names es = map fst (filter snd (map entry_kind es)).
Proof.
  unfold directory_names.
  induction es as [|e es IH]; simpl; [reflexivity|].
  unfold entry_is_dir at 1.
  destruct (node_is_dir (snd e)); simpl; now rewrite IH.
Qed.

Lemma map_fst_entry_kind (es : list (string * node)) :
  map fst (map entry_kind es) = map fst es.
Proof. rewrite map_map. now apply map_ext. Qed.

(** What the lister prints for a well-formed directory. *)
Lemma listed_sorted (es : list (string * node)) :
  NoDup (map fst es) ->
  filter (listed es) (sorted String.ltb (map fst es))
  = sorted String.ltb (directory_names es).
Proof.
  intros Hnd.
  rewrite (filter_sorted String.ltb ltb_irrefl ltb_trans ltb_trichotomy).
  now rewrite listed_names.
Qed.

(** * The claims *)

(** C2. When [<root>/packages] is a directory (its entries have distinct
    names, as in any directory), the [packages] sub-command prints exactly
    one line [- <name>] for each immediate child that is a directory, in
    strictly ascending order of the names; entries that are not directories
    are skipped, nothing below the children is listed, and the exit status
    is 0. *)
Theorem C2_packages_lists_directories
        (root : Path) (argv : list string) (w : world) (es : list (string * node)) :
  selects argv "packages" ->
  lookup (fs w) (packages_dir root) = Some (Dir es) ->
  NoDup (map fst es) ->
  stdout (final (run root argv w))
  = stdout w ++ map line (sorted String.ltb (directory_names es))
  /\ StronglySorted str_lt (sorted String.ltb (directory_names es))
  /\ (forall n, In n (sorted String.ltb (directory_names es))
                <-> exists sub, In (n, Dir sub) es)
  /\ stderr (final (run root argv w)) = stderr w
  /\ exit_status (run root argv w) = 0%Z.
Proof.
  intros Hsel Hdir Hnd. apply selects_inv in Hsel as [-> _].
  rewrite run_packages, (list_packages_dir root w es Hdir). simpl.
  rewrite (listed_sorted es Hnd).
  repeat split.
  - apply (ascending_strict String.ltb ltb_trichotomy).
    + eapply Permutation_NoDup; [|apply NoDup_directory_names, Hnd].
      symmetry. apply sorted_perm.
    + apply (sorted_ascending String.ltb ltb_irrefl ltb_trans ltb_trichotomy).
  - intros Hin. apply In_directory_names.
    eapply Permutation_in; [apply sorted_perm|exact Hin].
  - intros Hin. apply In_directory_names in Hin.
    eapply Permutation_in; [symmetry; apply sorted_perm|exact Hin].
Qed.

Lemma C2_packages_lists_directories_witness :
  stdout (final (run repo ["packages"] (world_of fs_example)))
  = stdout (world_of fs_example)
    ++ map line (sorted String.ltb (directory_names packages_example))
  /\ StronglySorted str_lt (sorted String.ltb (directory_names packages_example))
  /\ (forall n, In n (sorted String.ltb (directory_names packages_example))
                <-> exists sub, In (n, Dir sub) packages_example)
  /\ stderr (final (run repo ["packages"] (world_of fs_example)))
     = stderr (world_of fs_example)
  /\ exit_status (run repo ["packages"] (world_of fs_example)) = 0%Z.
Proof.
  apply (C2_packages_lists_directories repo ["packages"] (world_of fs_example)
                                       packages_example).
  - reflexivity.
  - reflexivity.
  - repeat constructor; simpl; intuition discriminate.
Defined.

(** The listing of the example: [b], [a] and a stray file give [- a] then
    [- b]. *)
Example packages_example_output :
  run repo ["packages"] (world_of fs_example)
  = (0%Z, mkWorld fs_example [line "a"; line "b"] [] no_git).
Proof. reflexivity. Qed.

(** C4. When [<root>/packages] does not exist, the [packages] sub-command
    prints the single line [No packages directory found.], writes nothing
    to standard error, and the tool exits with status 0. *)
Theorem C4_missing_packages_directory
        (root : Path) (argv : list string) (w : world) :
  selects argv "packages" ->
  lookup (fs w) (packages_dir root) = None ->
  stdout (final (run root argv w))
  = stdout w ++ [Text ("No packages directory found." ++ newline)%string]
  /\ stderr (final (run root argv w)) = stderr w
  /\ exit_status (run root argv w) = 0%Z.
Proof.
  intros Hsel Hnone. apply selects_inv in Hsel as [-> _].
  rewrite run_packages, (list_packages_missing root w Hnone).
  now repeat split.
Qed.

Lemma C4_missing_packages_directory_witness :
  stdout (final (run repo ["packages"] (world_of fs_no_packages)))
  = stdout (world_of fs_no_packages)
    ++ [Text ("No packages directory found." ++ newline)%string]
  /\ stderr (final (run repo ["packages"] (world_of fs_no_packages)))
     = stderr (world_of fs_no_packages)
  /\ exit_status (run repo ["packages"] (world_of fs_no_packages)) = 0%Z.
Proof.
  apply (C4_missing_packages_directory repo ["packages"] (world_of fs_no_packages));
    reflexivity.
Defined.

(** C6. When [<root>/packages] is a directory without entries, the
    [packages] sub-command prints nothing and the tool exits with
    status 0. *)
Theorem C6_empty_packages_directory
        (root : Path) (argv : list string) (w : world) :
  selects argv "packages" ->
  lookup (fs w) (packages_dir root) = Some (Dir []) ->
  stdout (final (run root argv w)) = stdout w
  /\ stderr (final (run root argv w)) = stderr w
  /\ exit_status (run root argv w) = 0%Z.
Proof.
  intros Hsel Hdir. apply selects_inv in Hsel as [-> _].
  rewrite run_packages, (list_packages_dir root w [] Hdir). simpl.
  now rewrite app_nil_r.
Qed.

Lemma C6_empty_packages_directory_witness :
  stdout (final (run repo ["packages"] (world_of fs_empty_packages)))
  = stdout (world_of fs_empty_packages)
  /\ stderr (final (run repo ["packages"] (world_of fs_empty_packages)))
     = stderr (world_of fs_empty_packages)
  /\ exit_status (run repo ["packages"] (world_of fs_empty_packages)) = 0%Z.
Proof.
  apply (C6_empty_packages_directory repo ["packages"] (world_of fs_empty_packages));
    reflexivity.
Defined.

(** C9. When [<root>/packages] exists and is not a directory, the
    [packages] sub-command takes neither branch to its end: the existence
    test passes, enumerating the path raises [NotADirectoryError], nothing
    is printed, the exception is reported on standard error and the exit
    status is 1. *)
Theorem C9_packages_path_is_a_file
        (root : Path) (argv : list string) (w : world) :
  selects argv "packages" ->
  lookup (fs w) (packages_dir root) = Some File ->
  exists_ (packages_dir root) w = (Ret true, w)
  /\ list_packages root w = (Raise NotADirectoryError, w)
  /\ stdout (final (run root argv w)) = stdout w
  /\ stderr (final (run root argv w)) = stderr w ++ [Traceback NotADirectoryError]
  /\ exit_status (run root argv w) = 1%Z.
Proof.
  intros Hsel Hfile. apply selects_inv in Hsel as [-> _].
  rewrite run_packages, (list_packages_file root w Hfile).
  unfold exists_. rewrite Hfile. now repeat split.
Qed.

Lemma C9_packages_path_is_a_file_witness :
  exists_ (packages_dir repo) (world_of fs_packages_file)
  = (Ret true, world_of fs_packages_file)
  /\ list_packages repo (world_of fs_packages_file)
     = (Raise NotADirectoryError, world_of fs_packages_file)
  /\ stdout (final (run repo ["packages"] (world_of fs_packages_file)))
     = stdout (world_of fs_packages_file)
  /\ stderr (final (run repo ["packages"] (world_of fs_packages_file)))
     = stderr (world_of fs_packages_file) ++ [Traceback NotADirectoryError]
  /\ exit_status (run repo ["packages"] (world_of fs_packages_file)) = 1%Z.
Proof.
  apply (C9_packages_path_is_a_file repo ["packages"] (world_of fs_packages_file));
    reflexivity.
Defined.

(** C8. A run of the [packages] sub-command leaves the file system as it
    found it (and the process launcher untouched): all it changes is the
    console. *)
Theorem C8_packages_leaves_file_system
        (root : Path) (argv : list string) (w : world) :
  selects argv "packages" ->
  fs (final (run root argv w)) = fs w
  /\ os_spawn (final (run root argv w)) = os_spawn w.
Proof.
  intros Hsel. apply selects_inv in Hsel as [-> _].
  rewrite run_packages.
  destruct (lookup (fs w) (packages_dir root)) as [[|es]|] eqn:Hpk.
  - now rewrite (list_packages_file root w Hpk).
  - now rewrite (list_packages_dir root w es Hpk).
  - now rewrite (list_packages_missing root w Hpk).
Qed.

Lemma C8_packages_leaves_file_system_witness :
  fs (final (run repo ["packages"] (world_of fs_example))) = fs (world_of fs_example)
  /\ os_spawn (final (run repo ["packages"] (world_of fs_example)))
     = os_spawn (world_of fs_example).
Proof.
  apply (C8_packages_leaves_file_system repo ["packages"] (world_of fs_example)).
  reflexivity.
Defined.

(** C7. Two runs of the [packages] sub-command on file-system states that
    show the same packages directory, whatever the order in which the
    directory enumerates its entries, write the same output and end with
    the same exit status. *)
Theorem C7_listing_is_deterministic
        (root : Path) (argv : list string) (w1 w2 : world) :
  selects argv "packages" ->
  same_packages_state root (fs w1) (fs w2) ->
  stdout w1 = stdout w2 ->
  stderr w1 = stderr w2 ->
  stdout (final (run root argv w1)) = stdout (final (run root argv w2))
  /\ stderr (final (run root argv w1)) = stderr (final (run root argv w2))
  /\ exit_status (run root argv w1) = exit_status (run root argv w2).
Proof.
  intros Hsel Hsame Hout Herr. apply selects_inv in Hsel as [-> _].
  unfold same_packages_state in Hsame. rewrite !run_packages.
  destruct (lookup (fs w1) (packages_dir root)) as [[|es1]|] eqn:H1;
    destruct (lookup (fs w2) (packages_dir root)) as [[|es2]|] eqn:H2;
    try contradiction.
  - rewrite (list_packages_file root w1 H1), (list_packages_file root w2 H2).
    simpl. now rewrite Hout, Herr.
  - destruct Hsame as [Hnd1 Hperm].
    assert (NoDup (map fst es2)) as Hnd2.
    { rewrite <- (map_fst_entry_kind es2).
      eapply Permutation_NoDup; [apply Permutation_map, Hperm|].
      now rewrite map_fst_entry_kind. }
    rewrite (list_packages_dir root w1 es1 H1), (list_packages_dir root w2 es2 H2).
    simpl. rewrite (listed_sorted es1 Hnd1), (listed_sorted es2 Hnd2).
    rewrite (sorted_permutation_eq String.ltb ltb_irrefl ltb_trans ltb_trichotomy
               (directory_names es1) (directory_names es2)).
    + now rewrite Hout, Herr.
    + rewrite !directory_names_kind.
      now apply Permutation_map, filter_perm.
  - rewrite (list_packages_missing root w1 H1), (list_packages_missing root w2 H2).
    simpl. now rewrite Hout, Herr.
Qed.

Lemma C7_listing_is_deterministic_witness :
  stdout (final (run repo ["packages"] (world_of fs_example)))
  = stdout (final (run repo ["packages"] (world_of fs_example')))
  /\ stderr (final (run repo ["packages"] (world_of fs_example)))
     = stderr (final (run repo ["packages"] (world_of fs_example')))
  /\ exit_status (run repo ["packages"] (world_of fs_example))
     = exit_status (run repo ["packages"] (world_of fs_example')).
Proof.
  apply (C7_listing_is_deterministic repo ["packages"]
                                     (world_of fs_example) (world_of fs_example')).
  - reflexivity.
  - split.
    + repeat constructor; simpl; intuition discriminate.
    + simpl. unfold entry_kind. simpl.
      apply Permutation_sym.
      eapply perm_trans; [apply perm_swap|].
      eapply perm_trans; [apply perm_skip, perm_swap|].
      eapply perm_trans; [apply perm_swap|].
      apply Permutation_refl.
  - reflexivity.
  - reflexivity.
Defined.

(** C3. In a run of the [status] sub-command, when the external process
    exits with a non-zero status the tool reports the exception on standard
    error and exits with status 1, and when the executable cannot be
    launched the tool does the same: neither failure ends in success. *)
Theorem C3_status_failure_is_fatal
        (root : Path) (argv : list string) (w : world) :
  selects argv "status" ->
  (forall rc out err f',
      os_spawn w git_status root (fs w) = Exited rc out err f' ->
      rc <> 0%Z ->
      exit_status (run root argv w) = 1%Z
      /\ stderr (final (run root argv w))
         = stderr w ++ [Text err; Traceback (CalledProcessError rc)])
  /\ (os_spawn w git_status root (fs w) = CannotLaunch ->
      exit_status (run root argv w) = 1%Z
      /\ stderr (final (run root argv w)) = stderr w ++ [Traceback FileNotFoundError]
      /\ stdout (final (run root argv w)) = stdout w).
Proof.
  intros Hsel. apply selects_inv in Hsel as [-> _].
  rewrite run_status. unfold subprocess_run. split.
  - intros rc out err f' Hspawn Hrc. rewrite Hspawn.
    apply Z.eqb_neq in Hrc. rewrite Hrc. simpl.
    now rewrite <- app_assoc.
  - intros Hspawn. now rewrite Hspawn.
Qed.

Lemma C3_status_failure_is_fatal_witness :
  (exit_status (run repo ["status"] (mkWorld fs_example [] [] git_fails)) = 1%Z
   /\ stderr (final (run repo ["status"] (mkWorld fs_example [] [] git_fails)))
      = [Text "fatal: not a git repository"; Traceback (CalledProcessError 128)])
  /\ (exit_status (run repo ["status"] (mkWorld fs_example [] [] no_git)) = 1%Z
      /\ stderr (final (run repo ["status"] (mkWorld fs_example [] [] no_git)))
         = [Traceback FileNotFoundError]
      /\ stdout (final (run repo ["status"] (mkWorld fs_example [] [] no_git))) = []).
Proof.
  split.
  - apply (proj1 (C3_status_failure_is_fatal
                    repo ["status"] (mkWorld fs_example [] [] git_fails) eq_refl)
                 128%Z "" "fatal: not a git repository" fs_example).
    + reflexivity.
    + discriminate.
  - apply (proj2 (C3_status_failure_is_fatal
                    repo ["status"] (mkWorld fs_example [] [] no_git) eq_refl)).
    reflexivity.
Defined.

(** C5. In a run of the [status] sub-command, when the external process
    exits with status 0 having written [out] and [err], exactly these texts
    reach the tool's standard output and standard error, and the tool exits
    with status 0. *)
Theorem C5_status_relays_output
        (root : Path) (argv : list string) (w : world)
        (out err : string) (f' : node) :
  selects argv "status" ->
  os_spawn w git_status root (fs w) = Exited 0 out err f' ->
  stdout (final (run root argv w)) = stdout w ++ [Text out]
  /\ stderr (final (run root argv w)) = stderr w ++ [Text err]
  /\ exit_status (run root argv w) = 0%Z.
Proof.
  intros Hsel Hspawn. apply selects_inv in Hsel as [-> _].
  rewrite run_status. unfold subprocess_run. now rewrite Hspawn.
Qed.

Lemma C5_status_relays_output_witness :
  stdout (final (run repo ["status"] (mkWorld fs_example [] [] git_clean)))
  = [] ++ [Text "## main"]
  /\ stderr (final (run repo ["status"] (mkWorld fs_example [] [] git_clean)))
     = [] ++ [Text ""]
  /\ exit_status (run repo ["status"] (mkWorld fs_example [] [] git_clean)) = 0%Z.
Proof.
  apply (C5_status_relays_output repo ["status"]
                                 (mkWorld fs_example [] [] git_clean)
                                 "## main" "" fs_example);
    reflexivity.
Defined.

(** C10. Whenever [parse_args] returns, the parsed command is [packages]
    or [status]: the guard of the last branch of [main] is false, so [main]
    returns 0 as soon as the selected action returns, and it never returns
    anything else. *)
Theorem C10_fallback_is_unreachable
        (root : Path) (argv : list string) (w w0 : world) (args : Namespace) :
  parse_args argv w = (Ret args, w0) ->
  (command args = "packages" \/ command args = "status")
  /\ takes_fallback args = false
  /\ (forall w1, command args = "packages" ->
                 list_packages root w0 = (Ret tt, w1) ->
                 main root argv w = (Ret 0%Z, w1))
  /\ (forall rc w1, command args = "status" ->
                    subprocess_run git_status true root w0 = (Ret rc, w1) ->
                    main root argv w = (Ret 0%Z, w1))
  /\ (forall n w1, main root argv w = (Ret n, w1) -> n = 0%Z).
Proof.
  intros Hparse.
  assert (command args = "packages" \/ command args = "status") as Hcmd.
  { unfold parse_args in Hparse.
    destruct (parse_top argv []) as [c| |] eqn:Htop; inversion Hparse; subst.
    now apply parse_top_Parsed in Htop as (_ & _ & ?). }
  split; [exact Hcmd|].
  split; [unfold takes_fallback; destruct Hcmd as [-> | ->]; reflexivity|].
  unfold main, bind. rewrite Hparse. fold git_status.
  repeat split.
  - intros w1 -> Hact. simpl. now rewrite Hact.
  - intros rc w1 -> Hact. simpl. now rewrite Hact.
  - intros n w1. destruct Hcmd as [-> | ->]; simpl.
    + destruct (list_packages root w0) as [[[]|e] w']; unfold ret; congruence.
    + destruct (subprocess_run git_status true root w0) as [[rc|e] w'];
        unfold ret; congruence.
Qed.

Lemma C10_fallback_is_unreachable_witness :
  (command (mkNamespace "packages") = "packages"
   \/ command (mkNamespace "packages") = "status")
  /\ takes_fallback (mkNamespace "packages") = false
  /\ main repo ["packages"] (world_of fs_example)
     = (Ret 0%Z, mkWorld fs_example [line "a"; line "b"] [] no_git).
Proof.
  destruct (C10_fallback_is_unreachable
              repo ["packages"] (world_of fs_example) (world_of fs_example)
              (mkNamespace "packages") eq_refl)
    as (Hcmd & Hguard & Hpackages & _ & _).
  split; [exact Hcmd|]. split; [exact Hguard|].
  apply Hpackages; reflexivity.
Defined.

(** C1, as the program behaves. A command line that is empty, or whose
    first argument is read as a sub-command and is neither [packages] nor
    [status], is rejected by the argument parser itself: the usage and the
    error message go to standard error, the exit status is 2, and nothing
    is written to standard output (no help message, no package or status
    output); the file system is not touched. *)
Theorem C1_usage_error_exits_2
        (root : Path) (argv : list string) (w : world) :
  argv = [] \/ (exists tok rest, argv = tok :: rest /\ unrecognized_subcommand tok = true) ->
  exit_status (run root argv w) = 2%Z
  /\ stdout (final (run root argv w)) = stdout w
  /\ fs (final (run root argv w)) = fs w
  /\ (exists e, stderr (final (run root argv w))
                = stderr w ++ [UsageAndError TopParser e]).
Proof.
  intros [-> | (tok & rest & -> & Htok)].
  - repeat split. now exists MissingCommand.
  - unfold unrecognized_subcommand in Htok.
    apply andb_true_iff in Htok as [Htok Hmem].
    apply andb_true_iff in Htok as [Hdash Hclass].
    apply negb_true_iff in Hdash, Hmem.
    unfold run, script, main, bind, parse_args. cbn [parse_top].
    rewrite Hdash. destruct (classify tok); try discriminate.
    rewrite Hmem. repeat split. now exists (InvalidChoice tok).
Qed.

Lemma C1_usage_error_exits_2_witness :
  exit_status (run repo ["foo"] (world_of fs_example)) = 2%Z
  /\ stdout (final (run repo ["foo"] (world_of fs_example)))
     = stdout (world_of fs_example)
  /\ fs (final (run repo ["foo"] (world_of fs_example))) = fs (world_of fs_example)
  /\ (exists e, stderr (final (run repo ["foo"] (world_of fs_example)))
                = stderr (world_of fs_example) ++ [UsageAndError TopParser e]).
Proof.
  apply (C1_usage_error_exits_2 repo ["foo"] (world_of fs_example)).
  right. exists "foo", []. split; reflexivity.
Defined.

(** C1, as stated, fails: without a sub-command, and with the unknown
    sub-command [foo], the exit status is 2 and not 1, and standard output
    stays empty (no help message on it): the diagnostic is on standard
    error. *)
Lemma C1_counterexample :
  (run repo [] (world_of fs_example)
   = (2%Z, mkWorld fs_example [] [UsageAndError TopParser MissingCommand] no_git)
   /\ exit_status (run repo [] (world_of fs_example)) <> 1%Z
   /\ ~ In (HelpMessage TopParser) (stdout (final (run repo [] (world_of fs_example)))))
  /\ (run repo ["foo"] (world_of fs_example)
      = (2%Z, mkWorld fs_example []
                      [UsageAndError TopParser (InvalidChoice "foo")] no_git)
      /\ exit_status (run repo ["foo"] (world_of fs_example)) <> 1%Z
      /\ ~ In (HelpMessage TopParser)
              (stdout (final (run repo ["foo"] (world_of fs_example))))).
Proof.
  repeat split; try reflexivity; try discriminate; simpl; tauto.
Qed.


(** * Further properties of the program *)

(** ** Whole runs, by what the parser makes of the command line *)

Lemma run_rejected (root : Path) (argv : list string) (w : world)
      (p : parser_id) (e : usage_error) :
  parse_top argv [] = Rejected p e ->
  run root argv w = (2%Z, write_stderr (UsageAndError p e) w).
Proof.
  intros H. unfold run, script, main, bind, parse_args. now rewrite H.
Qed.

Lemma run_help (root : Path) (argv : list string) (w : world) (p : parser_id) :
  parse_top argv [] = ShowHelp p ->
  run root argv w = (0%Z, write_stdout (HelpMessage p) w).
Proof.
  intros H. unfold run, script, main, bind, parse_args. now rewrite H.
Qed.

Lemma run_characterised (root : Path) (argv : list string) (w : world) :
  match parse_top argv [] with
  | Rejected p e => run root argv w = (2%Z, write_stderr (UsageAndError p e) w)
  | ShowHelp p => run root argv w = (0%Z, write_stdout (HelpMessage p) w)
  | Parsed c => argv = [c] /\ (c = "packages" \/ c = "status")
  end.
Proof.
  destruct (parse_top argv []) as [c|p|p e] eqn:H.
  - now apply parse_top_Parsed in H as (_ & ? & ?).
  - now apply run_help.
  - now apply run_rejected.
Qed.




Lemma classify_choice (c : string) :
  mem c choices = true -> (c =? "--") = false /\ classify c = Positional.
Proof.
  intros H. apply mem_choices in H as [-> | ->]; split; reflexivity.
Qed.

(** ** The command line *)

(** X1. The parser accepts exactly two command lines: the single word
    [packages] and the single word [status]; no abbreviation, no other
    spelling and no further argument is accepted. *)
Theorem accepted_command_lines (argv : list string) (c : string) :
  selects argv c <-> argv = [c] /\ (c = "packages" \/ c = "status").
Proof.
  split.
  - apply selects_inv.
  - intros [-> [-> | ->]]; reflexivity.
Qed.


(** X3. A command line other than [packages] and [status] makes the tool
    write one message of the argument parser and nothing else: either a
    help message on standard output with status 0, or the usage and an
    error on standard error with status 2. The file system is left as it
    was: nothing is listed and no process is launched. *)
Theorem other_command_lines_only_report
        (root : Path) (argv : list string) (w : world) :
  argv <> ["packages"] ->
  argv <> ["status"] ->
  fs (final (run root argv w)) = fs w
  /\ ((exit_status (run root argv w) = 0%Z
       /\ (exists p, stdout (final (run root argv w)) = stdout w ++ [HelpMessage p])
       /\ stderr (final (run root argv w)) = stderr w)
      \/ (exit_status (run root argv w) = 2%Z
          /\ stdout (final (run root argv w)) = stdout w
          /\ (exists p e, stderr (final (run root argv w))
                          = stderr w ++ [UsageAndError p e]))).
Proof.
  intros Hp Hs.
  pose proof (run_characterised root argv w) as H.
  destruct (parse_top argv []) as [c|p|p e].
  - destruct H as [-> [-> | ->]]; contradiction.
  - rewrite H. split; [reflexivity|]. left. repeat split. now exists p.
  - rewrite H. split; [reflexivity|]. right. repeat split. now exists p, e.
Qed.

Lemma other_command_lines_only_report_witness :
  fs (final (run repo ["packages"; "extra"] (world_of fs_example))) = fs_example
  /\ exit_status (run repo ["packages"; "extra"] (world_of fs_example)) = 2%Z
  /\ stdout (final (run repo ["packages"; "extra"] (world_of fs_example))) = [].
Proof.
  destruct (other_command_lines_only_report
              repo ["packages"; "extra"] (world_of fs_example))
    as [Hfs [(H0 & _) | (H2 & Hout & _)]].
  - discriminate.
  - discriminate.
  - discriminate H0.
  - repeat split; assumption.
Defined.

(** X4. A help flag as first argument makes the tool print the top-level
    help on standard output and exit with status 0, whatever follows it;
    after a sub-command name it prints that sub-command's help instead, and
    the sub-command is not run. *)
Theorem help_flag_prints_help
        (root : Path) (tok : string) (rest : list string) (w : world) :
  help_flag tok = true ->
  run root (tok :: rest) w = (0%Z, write_stdout (HelpMessage TopParser) w)
  /\ (forall cmd, mem cmd choices = true ->
                  run root (cmd :: tok :: rest) w
                  = (0%Z, write_stdout (HelpMessage (SubParser cmd)) w)).
Proof.
  unfold help_flag. intros H.
  apply andb_true_iff in H as [Hdash Hclass]. apply negb_true_iff in Hdash.
  destruct (classify tok) eqn:Hc; try discriminate. clear Hclass.
  split.
  - apply run_help. cbn [parse_top]. now rewrite Hdash, Hc.
  - intros cmd Hmem. apply run_help.
    destruct (classify_choice cmd Hmem) as [Hcd Hcc].
    cbn [parse_top parse_sub]. now rewrite Hcd, Hcc, Hmem, Hdash, Hc.
Qed.

Lemma help_flag_prints_help_witness :
  run repo ["--he"; "packages"] (world_of fs_example)
  = (0%Z, write_stdout (HelpMessage TopParser) (world_of fs_example))
  /\ run repo ["packages"; "--he"; "packages"] (world_of fs_example)
     = (0%Z, write_stdout (HelpMessage (SubParser "packages")) (world_of fs_example)).
Proof.
  destruct (help_flag_prints_help repo "--he" ["packages"] (world_of fs_example) eq_refl)
    as [Htop Hsub].
  split; [exact Htop|]. apply Hsub. reflexivity.
Defined.

(** ** The status sub-command *)

(** X5. Whatever status the external process exits with, what it wrote
    has reached the tool's streams and the file system is as the process
    left it; a non-zero status only adds the traceback after the relayed
    error text and turns the exit status into 1. *)
Theorem status_run_outcome
        (root : Path) (argv : list string) (w : world)
        (rc : Z) (out err : string) (f' : node) :
  selects argv "status" ->
  os_spawn w git_status root (fs w) = Exited rc out err f' ->
  stdout (final (run root argv w)) = stdout w ++ [Text out]
  /\ stderr (final (run root argv w))
     = stderr w ++ Text err
         :: (if (rc =? 0)%Z then [] else [Traceback (CalledProcessError rc)])
  /\ fs (final (run root argv w)) = f'
  /\ exit_status (run root argv w) = (if (rc =? 0)%Z then 0%Z else 1%Z).
Proof.
  intros Hsel Hspawn. apply selects_inv in Hsel as [-> _].
  rewrite run_status. unfold subprocess_run. rewrite Hspawn.
  destruct (rc =? 0)%Z; simpl; repeat split.
  now rewrite <- app_assoc.
Qed.

Lemma status_run_outcome_witness :
  stdout (final (run repo ["status"] (mkWorld fs_example [] [] git_fails)))
  = [] ++ [Text ""]
  /\ stderr (final (run repo ["status"] (mkWorld fs_example [] [] git_fails)))
     = [] ++ Text "fatal: not a git repository"
          :: (if (128 =? 0)%Z then [] else [Traceback (CalledProcessError 128)])
  /\ fs (final (run repo ["status"] (mkWorld fs_example [] [] git_fails))) = fs_example
  /\ exit_status (run repo ["status"] (mkWorld fs_example [] [] git_fails))
     = (if (128 =? 0)%Z then 0%Z else 1%Z).
Proof.
  apply (status_run_outcome repo ["status"] (mkWorld fs_example [] [] git_fails)
                            128%Z "" "fatal: not a git repository" fs_example);
    reflexivity.
Defined.

(** ** The packages sub-command *)

(** X6. The [packages] sub-command launches no process: with any other
    process launcher the run writes the same output and ends with the same
    exit status and file system. *)
Theorem packages_launches_nothing
        (root : Path) (argv : list string) (w : world)
        (spawn : list string -> Path -> node -> proc_outcome) :
  selects argv "packages" ->
  stdout (final (run root argv (with_spawn spawn w))) = stdout (final (run root argv w))
  /\ stderr (final (run root argv (with_spawn spawn w))) = stderr (final (run root argv w))
  /\ fs (final (run root argv (with_spawn spawn w))) = fs (final (run root argv w))
  /\ exit_status (run root argv (with_spawn spawn w)) = exit_status (run root argv w).
Proof.
  intros Hsel. apply selects_inv in Hsel as [-> _].
  rewrite !run_packages.
  destruct (lookup (fs w) (packages_dir root)) as [[|es]|] eqn:Hpk.
  - rewrite (list_packages_file root w Hpk),
            (list_packages_file root (with_spawn spawn w) Hpk).
    now repeat split.
  - rewrite (list_packages_dir root w es Hpk),
            (list_packages_dir root (with_spawn spawn w) es Hpk).
    now repeat split.
  - rewrite (list_packages_missing root w Hpk),
            (list_packages_missing root (with_spawn spawn w) Hpk).
    now repeat split.
Qed.

Lemma packages_launches_nothing_witness :
  stdout (final (run repo ["packages"] (with_spawn git_fails (world_of fs_example))))
  = stdout (final (run repo ["packages"] (world_of fs_example)))
  /\ stderr (final (run repo ["packages"] (with_spawn git_fails (world_of fs_example))))
     = stderr (final (run repo ["packages"] (world_of fs_example)))
  /\ fs (final (run repo ["packages"] (with_spawn git_fails (world_of fs_example))))
     = fs (final (run repo ["packages"] (world_of fs_example)))
  /\ exit_status (run repo ["packages"] (with_spawn git_fails (world_of fs_example)))
     = exit_status (run repo ["packages"] (world_of fs_example)).
Proof.
  apply (packages_launches_nothing repo ["packages"] (world_of fs_example) git_fails).
  reflexivity.
Defined.

(** X7. Running the [packages] sub-command a second time, on the world the
    first run left, writes to standard output exactly what the first run
    wrote and ends with the same exit status. *)
Theorem packages_twice (root : Path) (argv : list string) (w : world) :
  selects argv "packages" ->
  (exists written,
      stdout (final (run root argv w)) = stdout w ++ written
      /\ stdout (final (run root argv (final (run root argv w))))
         = (stdout w ++ written) ++ written)
  /\ exit_status (run root argv (final (run root argv w)))
     = exit_status (run root argv w).
Proof.
  intros Hsel. apply selects_inv in Hsel as [-> _].
  rewrite (run_packages root w).
  destruct (lookup (fs w) (packages_dir root)) as [[|es]|] eqn:Hpk.
  - rewrite (list_packages_file root w Hpk).
    rewrite run_packages. unfold final, snd.
    rewrite (list_packages_file root (write_stderr _ w) Hpk).
    split; [|reflexivity]. exists []. simpl. now rewrite !app_nil_r.
  - rewrite (list_packages_dir root w es Hpk).
    rewrite run_packages. unfold final, snd.
    rewrite (list_packages_dir root (mkWorld _ _ _ _) es Hpk).
    split; [|reflexivity]. eexists. split; reflexivity.
  - rewrite (list_packages_missing root w Hpk).
    rewrite run_packages. unfold final, snd.
    rewrite (list_packages_missing root (write_stdout _ w) Hpk).
    split; [|reflexivity]. eexists. split; reflexivity.
Qed.

Lemma packages_twice_witness :
  (exists written,
      stdout (final (run repo ["packages"] (world_of fs_example)))
      = stdout (world_of fs_example) ++ written
      /\ stdout (final (run repo ["packages"]
                            (final (run repo ["packages"] (world_of fs_example)))))
         = (stdout (world_of fs_example) ++ written) ++ written)
  /\ exit_status (run repo ["packages"]
                      (final (run repo ["packages"] (world_of fs_example))))
     = exit_status (run repo ["packages"] (world_of fs_example)).
Proof.
  apply (packages_twice repo ["packages"] (world_of fs_example)). reflexivity.
Defined.

(** X8. When the repository root itself is missing or is not a directory,
    the [packages] sub-command behaves as for a missing packages directory:
    it prints [No packages directory found.] and the exit status is 0. *)
Theorem packages_without_root (root : Path) (argv : list string) (w : world) :
  selects argv "packages" ->
  lookup (fs w) root = None \/ lookup (fs w) root = Some File ->
  stdout (final (run root argv w))
  = stdout w ++ [Text ("No packages directory found." ++ newline)%string]
  /\ stderr (final (run root argv w)) = stderr w
  /\ exit_status (run root argv w) = 0%Z.
Proof.
  intros Hsel Hroot. apply selects_inv in Hsel as [-> _].
  assert (lookup (fs w) (packages_dir root) = None) as Hpk.
  { unfold packages_dir, joinpath. rewrite lookup_app.
    now destruct Hroot as [-> | ->]. }
  rewrite run_packages, (list_packages_missing root w Hpk).
  now repeat split.
Qed.

Lemma packages_without_root_witness :
  stdout (final (run ["repo"; "cli.py"] ["packages"] (world_of fs_example)))
  = stdout (world_of fs_example)
    ++ [Text ("No packages directory found." ++ newline)%string]
  /\ stderr (final (run ["repo"; "cli.py"] ["packages"] (world_of fs_example)))
     = stderr (world_of fs_example)
  /\ exit_status (run ["repo"; "cli.py"] ["packages"] (world_of fs_example)) = 0%Z.
Proof.
  apply (packages_without_root ["repo"; "cli.py"] ["packages"] (world_of fs_example)).
  - reflexivity.
  - right. reflexivity.
Defined.


(** X10. Entries of the packages directory that are not directories have
    no influence on the listing: two packages directories with the same
    sub-directory names, whatever else they hold and in whatever order,
    are listed identically. *)
Theorem files_do_not_affect_listing
        (root : Path) (argv : list string) (w1 w2 : world)
        (es1 es2 : list (string * node)) :
  selects argv "packages" ->
  lookup (fs w1) (packages_dir root) = Some (Dir es1) ->
  lookup (fs w2) (packages_dir root) = Some (Dir es2) ->
  NoDup (map fst es1) ->
  NoDup (map fst es2) ->
  Permutation (directory_names es1) (directory_names es2) ->
  stdout w1 = stdout w2 ->
  stdout (final (run root argv w1)) = stdout (final (run root argv w2)).
Proof.
  intros Hsel H1 H2 Hnd1 Hnd2 Hperm Hout. apply selects_inv in Hsel as [-> _].
  rewrite !run_packages.
  rewrite (list_packages_dir root w1 es1 H1), (list_packages_dir root w2 es2 H2).
  simpl. rewrite (listed_sorted es1 Hnd1), (listed_sorted es2 Hnd2), Hout.
  now rewrite (sorted_permutation_eq String.ltb ltb_irrefl ltb_trans ltb_trichotomy
                 (directory_names es1) (directory_names es2) Hperm).
Qed.

Lemma files_do_not_affect_listing_witness :
  stdout (final (run repo ["packages"] (world_of fs_example)))
  = stdout (final (run repo ["packages"]
                       (world_of (Dir [("repo", Dir [("packages",
                                                       Dir [("a", Dir []);
                                                            ("README", File);
                                                            ("b", Dir [])])])])))).
Proof.
  apply (files_do_not_affect_listing
           repo ["packages"] (world_of fs_example) _
           packages_example [("a", Dir []); ("README", File); ("b", Dir [])]).
  - reflexivity.
  - reflexivity.
  - reflexivity.
  - repeat constructor; simpl; intuition discriminate.
  - repeat constructor; simpl; intuition discriminate.
  - apply perm_swap.
  - reflexivity.
Defined.




(** ** Failures *)


